(** * The change-detection core of the ingress controller

    A shallow embedding of [pkg/controller/listers.go]: the seven informer
    bindings built by [createListers], the event handlers each binding
    registers, and the start-up wait of [RunAsync].

    Handlers are Go closures called by the informer with values of type
    [interface{}].  They are embedded as functions from such values to a
    computation [M] that records, in order, every call made on the three
    collaborators (the [ListerEvents] sink, the event recorder, the logger)
    and that either returns or panics. *)

From Stdlib Require Import ZArith Ascii.
From stdpp Require Import base strings list gmap.

Open Scope string_scope.
Open Scope list_scope.

(** ** Kubernetes objects

    The API structs are declared outside this repository.  Only the fields the
    controller reads are spelled out; every other field of a struct is kept in
    one [Opaque] component, which the controller only ever hands to
    [reflect.DeepEqual]. *)

Definition Opaque := string.

(** [metav1.Time]. *)
Definition Time := Z.

(** A non-nil Go pointer: the address it holds and the value stored there.
    A pointer-typed field is an [option (ptr A)], [None] being [nil]. *)
Record ptr (A : Type) := Ref { addr : positive; target : A }.
Arguments Ref {A} addr target.
Arguments addr {A} p.
Arguments target {A} p.

#[global] Instance ptr_eq_dec {A} `{EqDecision A} : EqDecision (ptr A).
Proof. solve_decision. Defined.

(** [metav1.ObjectMeta]; [DeletionTimestamp] has type [*metav1.Time]. *)
Record ObjectMeta := {
  Namespace : string;
  Name : string;
  Labels : gmap string string;
  Annotations : gmap string string;
  DeletionTimestamp : option (ptr Time)
}.

Record Ingress := { ing_ObjectMeta : ObjectMeta; ing_Spec : Opaque }.

Record EndpointSubset := {
  Addresses : list string;
  NotReadyAddresses : list string;
  Ports : list Z
}.

Record Endpoints := { ep_ObjectMeta : ObjectMeta; Subsets : list EndpointSubset }.

Record Service := { svc_ObjectMeta : ObjectMeta; svc_Spec : Opaque }.

Record Secret := {
  sec_ObjectMeta : ObjectMeta;
  sec_Data : gmap string string;
  sec_Type : string
}.

Record ConfigMap := { cm_ObjectMeta : ObjectMeta; cm_Data : gmap string string }.

Record Pod := { pod_ObjectMeta : ObjectMeta; pod_Spec : Opaque; pod_Status : Opaque }.

Record Node := { node_ObjectMeta : ObjectMeta; node_Spec : Opaque }.

#[global] Instance EndpointSubset_eq_dec : EqDecision EndpointSubset.
Proof. solve_decision. Defined.

(** What an [interface{}] handed to a handler can hold: a pointer to one of
    the API structs, a [cache.DeletedFinalStateUnknown] (the tombstone the
    informer delivers when it missed the deletion itself; its [Obj] field is
    again an [interface{}]), or nothing. *)
Inductive iface :=
| IngressPtr (ing : Ingress)
| EndpointsPtr (ep : Endpoints)
| ServicePtr (svc : Service)
| SecretPtr (sec : Secret)
| ConfigMapPtr (cm : ConfigMap)
| PodPtr (pod : Pod)
| NodePtr (node : Node)
| DeletedFinalStateUnknown (Key : string) (Obj : iface)
| Nil.

(** ** Comparisons

    Go's [==] on two pointers compares the addresses. *)
Definition ptr_eqb {A} (p q : option (ptr A)) : bool :=
  match p, q with
  | None, None => true
  | Some a, Some b => bool_decide (addr a = addr b)
  | _, _ => false
  end.

(** [reflect.DeepEqual]: pointers are deeply equal when they are [==] or point
    to deeply equal values; structs when their fields are; values of
    different dynamic types never are. *)
Definition DeepEqual_ptr {A} `{EqDecision A} (p q : option (ptr A)) : bool :=
  match p, q with
  | None, None => true
  | Some a, Some b => bool_decide (addr a = addr b) || bool_decide (target a = target b)
  | _, _ => false
  end.

Definition DeepEqual_ObjectMeta (m n : ObjectMeta) : bool :=
  bool_decide (Namespace m = Namespace n)
  && bool_decide (Name m = Name n)
  && bool_decide (Labels m = Labels n)
  && bool_decide (Annotations m = Annotations n)
  && DeepEqual_ptr (DeletionTimestamp m) (DeletionTimestamp n).

Definition DeepEqual_Subsets (s t : list EndpointSubset) : bool :=
  bool_decide (s = t).

Fixpoint DeepEqual (x y : iface) : bool :=
  match x, y with
  | IngressPtr a, IngressPtr b =>
      DeepEqual_ObjectMeta (ing_ObjectMeta a) (ing_ObjectMeta b)
      && bool_decide (ing_Spec a = ing_Spec b)
  | EndpointsPtr a, EndpointsPtr b =>
      DeepEqual_ObjectMeta (ep_ObjectMeta a) (ep_ObjectMeta b)
      && DeepEqual_Subsets (Subsets a) (Subsets b)
  | ServicePtr a, ServicePtr b =>
      DeepEqual_ObjectMeta (svc_ObjectMeta a) (svc_ObjectMeta b)
      && bool_decide (svc_Spec a = svc_Spec b)
  | SecretPtr a, SecretPtr b =>
      DeepEqual_ObjectMeta (sec_ObjectMeta a) (sec_ObjectMeta b)
      && bool_decide (sec_Data a = sec_Data b)
      && bool_decide (sec_Type a = sec_Type b)
  | ConfigMapPtr a, ConfigMapPtr b =>
      DeepEqual_ObjectMeta (cm_ObjectMeta a) (cm_ObjectMeta b)
      && bool_decide (cm_Data a = cm_Data b)
  | PodPtr a, PodPtr b =>
      DeepEqual_ObjectMeta (pod_ObjectMeta a) (pod_ObjectMeta b)
      && bool_decide (pod_Spec a = pod_Spec b)
      && bool_decide (pod_Status a = pod_Status b)
  | NodePtr a, NodePtr b =>
      DeepEqual_ObjectMeta (node_ObjectMeta a) (node_ObjectMeta b)
      && bool_decide (node_Spec a = node_Spec b)
  | DeletedFinalStateUnknown k a, DeletedFinalStateUnknown k' b =>
      bool_decide (k = k') && DeepEqual a b
  | Nil, Nil => true
  | _, _ => false
  end.

(** The seven kinds of objects watched. *)
Inductive ResourceKind :=
| Ingresses | EndpointsKind | Services | Secrets | ConfigMaps | Pods | Nodes.

#[global] Instance ResourceKind_eq_dec : EqDecision ResourceKind.
Proof. solve_decision. Defined.

(** ** Effects

    Every call a handler makes on a collaborator, in the order it is made. *)
Inductive action :=
(* l.events *)
| Notify
| UpdateSecret (key : string)
| DeleteSecret (key : string)
| AddConfigMap (cm : ConfigMap)
| UpdateConfigMap (cm : ConfigMap)
(* l.recorder.Eventf(object, eventtype, reason, message) *)
| Eventf (object : Ingress) (eventtype reason message : string)
(* l.logger *)
| LogInfo (msg : string)
| LogError (format : string) (arg : iface)
(* runtime.HandleError(fmt.Errorf(msg)) *)
| HandleError (msg : string)
(* go informer.Run(stopCh), by the kind the informer watches *)
| GoRun (kind : ResourceKind).

(** How a call ends: it returns, it panics (a failed type assertion, a method
    called on a nil interface), or it is still waiting when the observation
    ends (only the start-up wait can be). *)
Inductive outcome (A : Type) :=
| Returned (a : A)
| Panicked
| Waiting.
Arguments Returned {A} a.
Arguments Panicked {A}.
Arguments Waiting {A}.

Definition M (A : Type) : Type := list action * outcome A.

Definition trace {A} (m : M A) : list action := fst m.
Definition result {A} (m : M A) : outcome A := snd m.

#[global] Instance M_ret : MRet M := λ A a, ([], Returned a).

#[global] Instance M_bind : MBind M := λ A B f m,
  match m with
  | (t, Returned a) => let '(u, r) := f a in (t ++ u, r)
  | (t, Panicked) => (t, Panicked)
  | (t, Waiting) => (t, Waiting)
  end.

Definition emit (a : action) : M unit := ([a], Returned tt).
Definition panic {A} : M A := ([], Panicked).

(** The signals forwarded to the sink, and the audit events recorded. *)
Definition is_signal (a : action) : bool :=
  match a with
  | Notify | UpdateSecret _ | DeleteSecret _ | AddConfigMap _ | UpdateConfigMap _ => true
  | _ => false
  end.

Definition is_audit (a : action) : bool :=
  match a with Eventf _ _ _ _ => true | _ => false end.

Definition signals {A} (m : M A) : list action := filter (λ a, is_signal a = true) (trace m).

(** ** The sink

    [ListerEvents]: the five notifying methods show up as actions; the
    predicate [IsValidClass] is a function of the ingress alone.  The
    [events] field of [listers] is an interface value, so it may be nil:
    calling a method on it then panics. *)
Record ListerEvents := { IsValidClass : Ingress → bool }.

Definition call (events : option ListerEvents) (a : action) : M unit :=
  match events with
  | Some _ => emit a
  | None => panic
  end.

Definition call_IsValidClass (events : option ListerEvents) (ing : Ingress) : M bool :=
  match events with
  | Some e => mret (IsValidClass e ing)
  | None => panic
  end.

(** ** Type assertions

    The one-value form of a type assertion to a pointer type panics when the
    interface does not hold such a pointer ([must]); the two-value form,
    with [ok], does not: it is an [option]. *)
Definition as_Ingress (x : iface) : option Ingress :=
  match x with IngressPtr ing => Some ing | _ => None end.
Definition as_Endpoints (x : iface) : option Endpoints :=
  match x with EndpointsPtr ep => Some ep | _ => None end.
Definition as_Secret (x : iface) : option Secret :=
  match x with SecretPtr sec => Some sec | _ => None end.
Definition as_ConfigMap (x : iface) : option ConfigMap :=
  match x with ConfigMapPtr cm => Some cm | _ => None end.
Definition as_Pod (x : iface) : option Pod :=
  match x with PodPtr pod => Some pod | _ => None end.
Definition as_DeletedFinalStateUnknown (x : iface) : option (string * iface) :=
  match x with DeletedFinalStateUnknown k o => Some (k, o) | _ => None end.

Definition must {A} (v : option A) : M A :=
  match v with
  | Some a => mret a
  | None => panic
  end.

(** The two [fmt.Sprintf] calls: the audit message of an ingress and the key
    of a secret, both built from namespace and name. *)
Definition ingress_message (ing : Ingress) : string :=
  "Ingress " +:+ Namespace (ing_ObjectMeta ing) +:+ "/" +:+ Name (ing_ObjectMeta ing).

Definition secret_key (sec : Secret) : string :=
  Namespace (sec_ObjectMeta sec) +:+ "/" +:+ Name (sec_ObjectMeta sec).

Definition EventTypeNormal : string := "Normal".

(** ** Event handlers

    [cache.ResourceEventHandlerFuncs]: each of the three functions may be
    left nil, and the informer then skips the event. *)
Record ResourceEventHandlerFuncs := {
  AddFunc : option (iface → M unit);
  UpdateFunc : option (iface → iface → M unit);
  DeleteFunc : option (iface → M unit)
}.

Definition OnAdd (h : ResourceEventHandlerFuncs) (obj : iface) : M unit :=
  match AddFunc h with Some f => f obj | None => mret tt end.
Definition OnUpdate (h : ResourceEventHandlerFuncs) (old cur : iface) : M unit :=
  match UpdateFunc h with Some f => f old cur | None => mret tt end.
Definition OnDelete (h : ResourceEventHandlerFuncs) (obj : iface) : M unit :=
  match DeleteFunc h with Some f => f obj | None => mret tt end.

Section Handlers.
(** The closures capture [l] and read [l.events], [l.recorder] and
    [l.logger], none of which is assigned after [createListers] built [l]. *)
Variable events : option ListerEvents.

Definition record_event (ing : Ingress) (reason : string) : M unit :=
  emit (Eventf ing EventTypeNormal reason (ingress_message ing)).

Definition ingress_AddFunc (obj : iface) : M unit :=
  ing ← must (as_Ingress obj);
  valid ← call_IsValidClass events ing;
  if (valid : bool) then
    call events Notify;;
    record_event ing "CREATE"
  else mret tt.

Definition ingress_UpdateFunc (old cur : iface) : M unit :=
  if DeepEqual old cur then mret tt
  else
    oldIng ← must (as_Ingress old);
    curIng ← must (as_Ingress cur);
    oldValid ← call_IsValidClass events oldIng;
    curValid ← call_IsValidClass events curIng;
    if negb (oldValid : bool) && negb (curValid : bool) then mret tt
    else
      (if negb oldValid && curValid then record_event curIng "CREATE"
       else if oldValid && negb curValid then record_event curIng "DELETE"
       else record_event curIng "UPDATE");;
      call events Notify.

(** The delete handlers first recover the deleted object: [None] stands
    for the early [return] after the error is logged. *)
Definition ingress_DeleteFunc (obj : iface) : M unit :=
  recovered ←
    match as_Ingress obj with
    | Some ing => mret (Some ing)
    | None =>
        match as_DeletedFinalStateUnknown obj with
        | None =>
            emit (LogError "couldn't get object from tombstone %#v" obj);;
            mret None
        | Some (_, tombstone_Obj) =>
            match as_Ingress tombstone_Obj with
            | None =>
                emit (LogError "Tombstone contained object that is not an Ingress: %#v" obj);;
                mret None
            | Some ing => mret (Some ing)
            end
        end
    end;
  match recovered with
  | None => mret tt
  | Some ing =>
      valid ← call_IsValidClass events ing;
      if negb (valid : bool) then mret tt
      else
        record_event ing "DELETE";;
        call events Notify
  end.

Definition endpoint_AddFunc (obj : iface) : M unit := call events Notify.

Definition endpoint_UpdateFunc (old cur : iface) : M unit :=
  oldEP ← must (as_Endpoints old);
  curEP ← must (as_Endpoints cur);
  if negb (DeepEqual_Subsets (Subsets oldEP) (Subsets curEP)) then call events Notify
  else mret tt.

Definition endpoint_DeleteFunc (obj : iface) : M unit := call events Notify.

Definition secret_AddFunc (obj : iface) : M unit := call events Notify.

Definition secret_UpdateFunc (old cur : iface) : M unit :=
  if negb (DeepEqual old cur) then
    sec ← must (as_Secret cur);
    call events (UpdateSecret (secret_key sec))
  else mret tt.

Definition secret_DeleteFunc (obj : iface) : M unit :=
  recovered ←
    match as_Secret obj with
    | Some sec => mret (Some sec)
    | None =>
        match as_DeletedFinalStateUnknown obj with
        | None =>
            emit (LogError "couldn't get object from tombstone %#v" obj);;
            mret None
        | Some (_, tombstone_Obj) =>
            match as_Secret tombstone_Obj with
            | None =>
                emit (LogError "Tombstone contained object that is not a Secret: %#v" obj);;
                mret None
            | Some sec => mret (Some sec)
            end
        end
    end;
  match recovered with
  | None => mret tt
  | Some sec => call events (DeleteSecret (secret_key sec))
  end.

Definition configMap_AddFunc (obj : iface) : M unit :=
  cm ← must (as_ConfigMap obj);
  call events (AddConfigMap cm).

Definition configMap_UpdateFunc (old cur : iface) : M unit :=
  if negb (DeepEqual old cur) then
    cm ← must (as_ConfigMap cur);
    call events (UpdateConfigMap cm)
  else mret tt.

Definition pod_UpdateFunc (old cur : iface) : M unit :=
  oldPod ← must (as_Pod old);
  curPod ← must (as_Pod cur);
  if negb (ptr_eqb (DeletionTimestamp (pod_ObjectMeta oldPod))
                   (DeletionTimestamp (pod_ObjectMeta curPod)))
  then call events Notify
  else mret tt.

Definition pod_DeleteFunc (obj : iface) : M unit := call events Notify.

Definition ingress_handlers : ResourceEventHandlerFuncs :=
  {| AddFunc := Some ingress_AddFunc;
     UpdateFunc := Some ingress_UpdateFunc;
     DeleteFunc := Some ingress_DeleteFunc |}.

Definition endpoint_handlers : ResourceEventHandlerFuncs :=
  {| AddFunc := Some endpoint_AddFunc;
     UpdateFunc := Some endpoint_UpdateFunc;
     DeleteFunc := Some endpoint_DeleteFunc |}.

Definition secret_handlers : ResourceEventHandlerFuncs :=
  {| AddFunc := Some secret_AddFunc;
     UpdateFunc := Some secret_UpdateFunc;
     DeleteFunc := Some secret_DeleteFunc |}.

Definition configMap_handlers : ResourceEventHandlerFuncs :=
  {| AddFunc := Some configMap_AddFunc;
     UpdateFunc := Some configMap_UpdateFunc;
     DeleteFunc := None |}.

Definition pod_handlers : ResourceEventHandlerFuncs :=
  {| AddFunc := None;
     UpdateFunc := Some pod_UpdateFunc;
     DeleteFunc := Some pod_DeleteFunc |}.
End Handlers.

(** ** Informers and their factories *)

Inductive clientset :=
| Client                  (* the [client] given to [createListers] *)
| FakeSimpleClientset.    (* [fake.NewSimpleClientset()]: holds no object *)

Inductive SharedInformerOption :=
| WithTweakListOptions_nil
| WithNamespace (namespace : string).

Record SharedInformerFactory := {
  factory_client : clientset;
  defaultResync : Z;
  factory_options : list SharedInformerOption
}.

Definition NewSharedInformerFactoryWithOptions
    (c : clientset) (resync : Z) (o : SharedInformerOption) : SharedInformerFactory :=
  {| factory_client := c; defaultResync := resync; factory_options := [o] |}.

Definition NewSharedInformerFactory (c : clientset) (resync : Z) : SharedInformerFactory :=
  {| factory_client := c; defaultResync := resync; factory_options := [] |}.

Record SharedInformer := {
  inf_factory : SharedInformerFactory;
  inf_kind : ResourceKind;
  inf_handlers : list ResourceEventHandlerFuncs
}.

(** [factory.Core().V1().Pods().Informer()] and the like. *)
Definition Informer (f : SharedInformerFactory) (k : ResourceKind) : SharedInformer :=
  {| inf_factory := f; inf_kind := k; inf_handlers := [] |}.

Definition AddEventHandler (h : ResourceEventHandlerFuncs) (i : SharedInformer) : SharedInformer :=
  {| inf_factory := inf_factory i; inf_kind := inf_kind i;
     inf_handlers := inf_handlers i ++ [h] |}.

(** ** [listers] and [createListers] *)

Record listers := {
  events : option ListerEvents;
  ingressInformer : SharedInformer;
  endpointInformer : SharedInformer;
  serviceInformer : SharedInformer;
  secretInformer : SharedInformer;
  configMapInformer : SharedInformer;
  podInformer : SharedInformer;
  nodeInformer : SharedInformer
}.

(** The [create...Lister] methods of [listers]: each takes the informer of its
    kind from the factory, registers its handlers, if it has any, and stores
    the informer in the field of [listers] named after it.  Here each returns
    the informer to store. *)
Definition createIngressLister (ev : option ListerEvents) (i : SharedInformer) : SharedInformer :=
  AddEventHandler (ingress_handlers ev) i.
Definition createEndpointLister (ev : option ListerEvents) (i : SharedInformer) : SharedInformer :=
  AddEventHandler (endpoint_handlers ev) i.
Definition createServiceLister (ev : option ListerEvents) (i : SharedInformer) : SharedInformer := i.
Definition createSecretLister (ev : option ListerEvents) (i : SharedInformer) : SharedInformer :=
  AddEventHandler (secret_handlers ev) i.
Definition createConfigMapLister (ev : option ListerEvents) (i : SharedInformer) : SharedInformer :=
  AddEventHandler (configMap_handlers ev) i.
Definition createPodLister (ev : option ListerEvents) (i : SharedInformer) : SharedInformer :=
  AddEventHandler (pod_handlers ev) i.
Definition createNodeLister (ev : option ListerEvents) (i : SharedInformer) : SharedInformer := i.

Definition NamespaceAll : string := "".

(** [createListers(events, logger, recorder, client, watchNamespace, resync)].
    The logger and the recorder are only ever called, and their calls are
    actions; the client is [Client].  The function has a single result, the
    pointer to the new [listers], and no error result. *)
Definition createListers (ev : option ListerEvents) (watchNamespace : string) (resync : Z)
    : M listers :=
  let clusterWatch := bool_decide (watchNamespace = NamespaceAll) in
  let option :=
    if clusterWatch then WithTweakListOptions_nil else WithNamespace watchNamespace in
  let informer := NewSharedInformerFactoryWithOptions Client resync option in
  mret {|
    events := ev;
    ingressInformer := createIngressLister ev (Informer informer Ingresses);
    endpointInformer := createEndpointLister ev (Informer informer EndpointsKind);
    serviceInformer := createServiceLister ev (Informer informer Services);
    secretInformer := createSecretLister ev (Informer informer Secrets);
    configMapInformer := createConfigMapLister ev (Informer informer ConfigMaps);
    podInformer := createPodLister ev (Informer informer Pods);
    nodeInformer :=
      if clusterWatch then createNodeLister ev (Informer informer Nodes)
      else
        let localInformer := NewSharedInformerFactory FakeSimpleClientset 0 in
        createNodeLister ev (Informer localInformer Nodes)
  |}.

(** ** Delivery of events

    An informer hands each event to its handlers, one event after the other. *)
Inductive RawEvent :=
| Added (obj : iface)
| Updated (old cur : iface)
| Deleted (obj : iface).

Definition handle (h : ResourceEventHandlerFuncs) (e : RawEvent) : M unit :=
  match e with
  | Added obj => OnAdd h obj
  | Updated old cur => OnUpdate h old cur
  | Deleted obj => OnDelete h obj
  end.

Fixpoint distribute (hs : list ResourceEventHandlerFuncs) (e : RawEvent) : M unit :=
  match hs with
  | [] => mret tt
  | h :: hs' => handle h e;; distribute hs' e
  end.

Fixpoint deliver (i : SharedInformer) (es : list RawEvent) : M unit :=
  match es with
  | [] => mret tt
  | e :: es' => distribute (inf_handlers i) e;; deliver i es'
  end.

(** ** The start-up wait

    What the wait can observe of the world at one poll: whether [stopCh] has
    been closed, and what [HasSynced] answers for the informer of each kind. *)
Record sample := { stopped : bool; hasSynced : ResourceKind → bool }.

Definition HasSynced (i : SharedInformer) (s : sample) : bool := hasSynced s (inf_kind i).

Inductive SyncResult := Synced | Cancelled.

(** Modelled from the spec: the sync barrier behind [cache.WaitForCacheSync],
    a function of the client library that is not among the sources.  At each
    poll it returns [Cancelled] at once if the stop signal has fired, whatever
    the progress; [Synced] if every flag it was given is true; and polls again
    otherwise.  [None]: it is still waiting after the last poll observed. *)
Fixpoint Await (cacheSyncs : list (sample → bool)) (polls : list sample) : option SyncResult :=
  match polls with
  | [] => None
  | s :: later =>
      if stopped s then Some Cancelled
      else if forallb (λ synced, synced s) cacheSyncs then Some Synced
      else Await cacheSyncs later
  end.

Definition WaitForCacheSync (polls : list sample) (cacheSyncs : list (sample → bool)) : M bool :=
  match Await cacheSyncs polls with
  | Some Synced => mret true
  | Some Cancelled => mret false
  | None => ([], Waiting)
  end.

Definition cacheSyncs (l : listers) : list (sample → bool) :=
  [ HasSynced (ingressInformer l);
    HasSynced (endpointInformer l);
    HasSynced (serviceInformer l);
    HasSynced (secretInformer l);
    HasSynced (configMapInformer l);
    HasSynced (podInformer l);
    HasSynced (nodeInformer l) ].

Definition go_Run (i : SharedInformer) : M unit := emit (GoRun (inf_kind i)).

Definition RunAsync (l : listers) (polls : list sample) : M unit :=
  go_Run (ingressInformer l);;
  go_Run (endpointInformer l);;
  go_Run (serviceInformer l);;
  go_Run (secretInformer l);;
  go_Run (configMapInformer l);;
  go_Run (podInformer l);;
  go_Run (nodeInformer l);;
  emit (LogInfo "loading object cache...");;
  synced ← WaitForCacheSync polls (cacheSyncs l);
  if (synced : bool) then emit (LogInfo "cache successfully synced")
  else emit (HandleError "initial cache sync has timed out or shutdown has requested").

(** * Sample objects *)

Definition meta (ns name : string) : ObjectMeta :=
  {| Namespace := ns; Name := name; Labels := ∅; Annotations := ∅;
     DeletionTimestamp := None |}.

Definition ing_web : Ingress := {| ing_ObjectMeta := meta "default" "web"; ing_Spec := "haproxy" |}.
Definition ing_web' : Ingress := {| ing_ObjectMeta := meta "default" "web"; ing_Spec := "nginx" |}.
Definition sec_tls : Secret :=
  {| sec_ObjectMeta := meta "default" "tls"; sec_Data := ∅; sec_Type := "kubernetes.io/tls" |}.

(** A sink that accepts the ingresses whose spec is ["haproxy"]. *)
Definition haproxy_only : ListerEvents :=
  {| IsValidClass := λ ing, bool_decide (ing_Spec ing = "haproxy") |}.

Definition pod_terminating (a : positive) (labels : gmap string string) : Pod :=
  {| pod_ObjectMeta :=
       {| Namespace := "default"; Name := "web-0"; Labels := labels; Annotations := ∅;
          DeletionTimestamp := Some (Ref a 1600000000%Z) |};
     pod_Spec := "haproxy"; pod_Status := "Running" |}.

(** A poll at which every informer but the node informer has synced. *)
Definition six_of_seven (stop : bool) : sample :=
  {| stopped := stop; hasSynced := λ k, negb (bool_decide (k = Nodes)) |}.

(** * Notions used in the statements *)

(** A pod is terminating once it has a deletion timestamp. *)
Definition terminating (p : Pod) : bool :=
  match DeletionTimestamp (pod_ObjectMeta p) with Some _ => true | None => false end.

(** The deletion time of a pod, whatever pointer holds it. *)
Definition deletion_time (p : Pod) : option Time :=
  target <$> DeletionTimestamp (pod_ObjectMeta p).

(** An audit event is recorded before the sink is notified: in a trace, no
    [Notify] comes before an [Eventf]. *)
Definition audit_first (t : list action) : Prop :=
  ∀ i j a, t !! i = Some Notify → t !! j = Some a → is_audit a = true → j < i.

(** What the spec calls identity recovery: the payload itself if it is of the
    expected kind, else the object inside a tombstone if that one is, else
    nothing. *)
Definition recover {A} (expected : iface → option A) (payload : iface) : option A :=
  match expected payload with
  | Some a => Some a
  | None =>
      match payload with
      | DeletedFinalStateUnknown _ inner => expected inner
      | _ => None
      end
  end.

(** What the delete handlers do once the deleted object is known. *)
Definition ingress_deleted (ev : ListerEvents) (ing : Ingress) : M unit :=
  if IsValidClass ev ing
  then ([Eventf ing "Normal" "DELETE" (ingress_message ing); Notify], Returned tt)
  else ([], Returned tt).

Definition secret_deleted (sec : Secret) : M unit :=
  ([DeleteSecret (secret_key sec)], Returned tt).

(** The error logged when nothing can be recovered. *)
Definition recovery_error (kind : string) (payload : iface) : action :=
  match payload with
  | DeletedFinalStateUnknown _ _ =>
      LogError ("Tombstone contained object that is not " +:+ kind +:+ ": %#v") payload
  | _ => LogError "couldn't get object from tombstone %#v" payload
  end.

(** The controller built by [createListers], fed a sequence of events by one
    of its informers. *)
Definition run (ev : option ListerEvents) (watchNamespace : string) (resync : Z)
    (informer : listers → SharedInformer) (es : list RawEvent) : M unit :=
  l ← createListers ev watchNamespace resync;
  deliver (informer l) es.

(** Whether every flag given to the wait is up at a poll. *)
Definition all_synced (cs : list (sample → bool)) (s : sample) : bool :=
  forallb (λ synced, synced s) cs.

(** The field of [listers] that holds the informer of a kind. *)
Definition informer_of (k : ResourceKind) (l : listers) : SharedInformer :=
  match k with
  | Ingresses => ingressInformer l
  | EndpointsKind => endpointInformer l
  | Services => serviceInformer l
  | Secrets => secretInformer l
  | ConfigMaps => configMapInformer l
  | Pods => podInformer l
  | Nodes => nodeInformer l
  end.

(** How many actions of a trace satisfy a test. *)
Definition count (p : action → bool) (t : list action) : nat :=
  length (filter (λ a, p a = true) t).

Definition is_notify (a : action) : bool :=
  match a with Notify => true | _ => false end.

(** An ingress event that only concerns ingresses of a class the sink does
    not accept: the ingress added, both the old and the new ingress of an
    update, the ingress deleted, be it delivered directly or in a tombstone. *)
Definition invalid_ingress (ev : ListerEvents) (x : iface) : bool :=
  match as_Ingress x with
  | Some ing => negb (IsValidClass ev ing)
  | None => false
  end.

Definition foreign_class_event (ev : ListerEvents) (e : RawEvent) : bool :=
  match e with
  | Added obj => invalid_ingress ev obj
  | Updated old cur => invalid_ingress ev old && invalid_ingress ev cur
  | Deleted obj =>
      match recover as_Ingress obj with
      | Some ing => negb (IsValidClass ev ing)
      | None => false
      end
  end.

(** The calls an informer of a kind may cause. *)
Definition may_cause (k : ResourceKind) (a : action) : bool :=
  match k, a with
  | Ingresses, (Notify | Eventf _ _ _ _ | LogError _ _) => true
  | (EndpointsKind | Pods), Notify => true
  | Secrets, (Notify | UpdateSecret _ | DeleteSecret _ | LogError _ _) => true
  | ConfigMaps, (AddConfigMap _ | UpdateConfigMap _) => true
  | _, _ => false
  end.

(** A string without the separator of the keys. *)
Fixpoint no_slash (s : string) : bool :=
  match s with
  | EmptyString => true
  | String c s' => negb (Ascii.eqb c "/"%char) && no_slash s'
  end.

(** * Properties *)

(** ** The computation monad *)

Lemma bind_returned {A B} (m : M A) (f : A → M B) t a :
  m = (t, Returned a) → m ≫= f = (t ++ trace (f a), result (f a)).
Proof. intros ->. unfold mbind, M_bind. by destruct (f a). Qed.

Lemma ret_bind {A B} (a : A) (f : A → M B) : mret a ≫= f = f a.
Proof. unfold mret, M_ret, mbind, M_bind. by destruct (f a). Qed.

Lemma bind_assoc {A B C} (m : M A) (f : A → M B) (g : B → M C) :
  (m ≫= f) ≫= g = m ≫= (λ a, f a ≫= g).
Proof.
  destruct m as [t [a| |]]; try reflexivity.
  unfold mbind, M_bind. destruct (f a) as [u [b| |]]; try reflexivity.
  destruct (g b) as [v r]. by rewrite app_assoc.
Qed.

(** ** Wiring: which handlers [createListers] registers *)

Lemma createListers_returns ev ns rs :
  ∃ l, createListers ev ns rs = ([], Returned l)
       ∧ events l = ev
       ∧ inf_handlers (ingressInformer l) = [ingress_handlers ev]
       ∧ inf_handlers (endpointInformer l) = [endpoint_handlers ev]
       ∧ inf_handlers (serviceInformer l) = []
       ∧ inf_handlers (secretInformer l) = [secret_handlers ev]
       ∧ inf_handlers (configMapInformer l) = [configMap_handlers ev]
       ∧ inf_handlers (podInformer l) = [pod_handlers ev]
       ∧ inf_handlers (nodeInformer l) = [].
Proof.
  unfold createListers. eexists. split; [reflexivity|]. simpl.
  repeat split; try reflexivity. by case_bool_decide.
Qed.

Lemma createListers_kinds ev ns rs l :
  createListers ev ns rs = ([], Returned l) →
  inf_kind <$> [ingressInformer l; endpointInformer l; serviceInformer l; secretInformer l;
                configMapInformer l; podInformer l; nodeInformer l]
  = [Ingresses; EndpointsKind; Services; Secrets; ConfigMaps; Pods; Nodes].
Proof.
  unfold createListers. intros [= <-]. simpl. by case_bool_decide.
Qed.

(** ** Ingress *)

(** C1: an Updated event on two ingresses emits nothing when they are deeply
    equal; otherwise nothing when neither is of a valid class, and else one
    audit event (CREATE when only the new one is valid, DELETE when only the
    old one is, UPDATE when both are) followed by one [Notify]. *)
Theorem C1_ingress_updated_table (ev : ListerEvents) (old cur : Ingress) :
  OnUpdate (ingress_handlers (Some ev)) (IngressPtr old) (IngressPtr cur) =
    if DeepEqual (IngressPtr old) (IngressPtr cur) then ([], Returned tt)
    else
      match IsValidClass ev old, IsValidClass ev cur with
      | false, false => ([], Returned tt)
      | false, true =>
          ([Eventf cur "Normal" "CREATE" (ingress_message cur); Notify], Returned tt)
      | true, false =>
          ([Eventf cur "Normal" "DELETE" (ingress_message cur); Notify], Returned tt)
      | true, true =>
          ([Eventf cur "Normal" "UPDATE" (ingress_message cur); Notify], Returned tt)
      end.
Proof.
  unfold OnUpdate, ingress_handlers, UpdateFunc, ingress_UpdateFunc.
  destruct (DeepEqual _ _); [reflexivity|].
  cbn. by destruct (IsValidClass ev old), (IsValidClass ev cur).
Qed.

(** The table on the sample ingress, whose class is valid before the update
    and no longer after it, and the other way round. *)
Example ingress_leaves_class :
  OnUpdate (ingress_handlers (Some haproxy_only)) (IngressPtr ing_web) (IngressPtr ing_web')
  = ([Eventf ing_web' "Normal" "DELETE" "Ingress default/web"; Notify], Returned tt).
Proof. reflexivity. Qed.

Example ingress_joins_class :
  OnUpdate (ingress_handlers (Some haproxy_only)) (IngressPtr ing_web') (IngressPtr ing_web)
  = ([Eventf ing_web "Normal" "CREATE" "Ingress default/web"; Notify], Returned tt).
Proof. reflexivity. Qed.

Example ingress_unchanged :
  OnUpdate (ingress_handlers (Some haproxy_only)) (IngressPtr ing_web) (IngressPtr ing_web)
  = ([], Returned tt).
Proof. reflexivity. Qed.

(** An Updated event whose payloads are not ingresses panics at the type
    assertion, unless the two are deeply equal. *)
Example ingress_updated_wrong_kind :
  OnUpdate (ingress_handlers (Some haproxy_only)) (SecretPtr sec_tls) (IngressPtr ing_web)
  = ([], Panicked).
Proof. reflexivity. Qed.

Lemma audit_first_nil : audit_first [].
Proof. intros i j a. by rewrite lookup_nil. Qed.

Lemma audit_first_then_notify (e : action) : audit_first [e; Notify].
Proof.
  intros [|[|i]] [|[|j]] a; simpl; intros; simplify_eq; try lia; discriminate.
Qed.

Lemma ingress_updated_audit_first (ev : ListerEvents) (old cur : iface) :
  audit_first (trace (OnUpdate (ingress_handlers (Some ev)) old cur)).
Proof.
  unfold OnUpdate, ingress_handlers, UpdateFunc, ingress_UpdateFunc.
  destruct (DeepEqual _ _); [apply audit_first_nil|].
  destruct (as_Ingress old) as [o|]; [|apply audit_first_nil].
  destruct (as_Ingress cur) as [c|]; [|apply audit_first_nil].
  cbn. destruct (IsValidClass ev o), (IsValidClass ev c); cbn;
    auto using audit_first_nil, audit_first_then_notify.
Qed.

(** C3, at an Added event: the handler notifies the sink first and records
    the CREATE audit event after it, while the Updated and Deleted handlers
    record first ([ingress_updated_audit_first], [ingress_deleted_audit_first]). *)
Theorem C3_ingress_added_notifies_before_audit :
  OnAdd (ingress_handlers (Some haproxy_only)) (IngressPtr ing_web)
    = ([Notify; Eventf ing_web "Normal" "CREATE" "Ingress default/web"], Returned tt)
  ∧ ¬ audit_first (trace (OnAdd (ingress_handlers (Some haproxy_only)) (IngressPtr ing_web))).
Proof.
  split; [reflexivity|].
  intros first. specialize (first 0 1 _ eq_refl eq_refl eq_refl). lia.
Qed.

(** ** Deleted events and identity recovery *)

Lemma ingress_DeleteFunc_recover (ev : ListerEvents) (obj : iface) :
  ingress_DeleteFunc (Some ev) obj =
    match recover as_Ingress obj with
    | Some ing => ingress_deleted ev ing
    | None => ([recovery_error "an Ingress" obj], Returned tt)
    end.
Proof.
  unfold ingress_DeleteFunc, ingress_deleted.
  destruct obj as [ing| | | | | | |k o|]; try reflexivity.
  - cbn. by destruct (IsValidClass ev ing).
  - destruct o as [ing| | | | | | |k' o'|]; try reflexivity.
    cbn. by destruct (IsValidClass ev ing).
Qed.

Lemma audit_first_singleton (e : action) : audit_first [e].
Proof.
  intros [|i] [|j] a; simpl; intros; simplify_eq; discriminate.
Qed.

Lemma ingress_deleted_audit_first (ev : ListerEvents) (obj : iface) :
  audit_first (trace (OnDelete (ingress_handlers (Some ev)) obj)).
Proof.
  change (OnDelete (ingress_handlers (Some ev)) obj) with (ingress_DeleteFunc (Some ev) obj).
  rewrite ingress_DeleteFunc_recover.
  destruct (recover as_Ingress obj) as [ing|]; [|apply audit_first_singleton].
  unfold ingress_deleted.
  destruct (IsValidClass ev ing); simpl; auto using audit_first_nil, audit_first_then_notify.
Qed.

Lemma secret_DeleteFunc_recover (ev : option ListerEvents) (obj : iface) :
  secret_DeleteFunc ev obj =
    match recover as_Secret obj with
    | Some sec => call ev (DeleteSecret (secret_key sec))
    | None => ([recovery_error "a Secret" obj], Returned tt)
    end.
Proof.
  unfold secret_DeleteFunc.
  destruct obj as [| | |sec| | | |k o|]; try reflexivity.
  - cbn. by destruct ev.
  - destruct o as [| | |sec| | | |k' o'|]; try reflexivity.
    cbn. by destruct ev.
Qed.

Lemma deliver_cons_returned i e es t :
  distribute (inf_handlers i) e = (t, Returned tt) →
  deliver i (e :: es) = (t ++ trace (deliver i es), result (deliver i es)).
Proof. intros H. simpl. by rewrite (bind_returned _ _ t tt H). Qed.

Lemma ingress_DeleteFunc_returns (ev : ListerEvents) (obj : iface) :
  result (ingress_DeleteFunc (Some ev) obj) = Returned tt.
Proof.
  rewrite ingress_DeleteFunc_recover. unfold ingress_deleted.
  destruct (recover as_Ingress obj) as [ing|]; [|reflexivity].
  by destruct (IsValidClass ev ing).
Qed.

Lemma secret_DeleteFunc_returns (ev : ListerEvents) (obj : iface) :
  result (secret_DeleteFunc (Some ev) obj) = Returned tt.
Proof.
  rewrite secret_DeleteFunc_recover. by destruct (recover as_Secret obj).
Qed.

Lemma distribute_one h e : distribute [h] e = handle h e.
Proof.
  simpl. destruct (handle h e) as [t [[]| |]]; cbn; by rewrite ?app_nil_r.
Qed.

Lemma deliver_cons_one i h e es :
  inf_handlers i = [h] →
  result (handle h e) = Returned tt →
  deliver i (e :: es) = (trace (handle h e) ++ trace (deliver i es), result (deliver i es)).
Proof.
  intros Hh Hr. apply deliver_cons_returned.
  rewrite Hh, distribute_one. destruct (handle h e) as [t r]; simpl in *. by subst.
Qed.

Lemma run_deliver ev ns rs informer es :
  ∃ l, createListers ev ns rs = ([], Returned l) ∧ run ev ns rs informer es = deliver (informer l) es.
Proof.
  unfold run, createListers. eexists. split; [reflexivity|]. cbv zeta. by rewrite ret_bind.
Qed.

(** C4: a Deleted payload is resolved in three ways by the Ingress and the
    Secret handlers.  A payload of the expected kind is used as it is; a
    tombstone holding an object of the expected kind yields that object;
    anything else ([recover] finds nothing) gets one error logged and no
    signal.  In every case the handler returns, and the events that follow
    are processed. *)
Theorem C4_deleted_payload_three_way (ev : ListerEvents) (obj : iface) :
  OnDelete (ingress_handlers (Some ev)) obj =
    match recover as_Ingress obj with
    | Some ing => ingress_deleted ev ing
    | None => ([recovery_error "an Ingress" obj], Returned tt)
    end
  ∧ OnDelete (secret_handlers (Some ev)) obj =
    match recover as_Secret obj with
    | Some sec => secret_deleted sec
    | None => ([recovery_error "a Secret" obj], Returned tt)
    end
  ∧ (∀ ns rs es,
       run (Some ev) ns rs ingressInformer (Deleted obj :: es) =
         (trace (OnDelete (ingress_handlers (Some ev)) obj)
            ++ trace (run (Some ev) ns rs ingressInformer es),
          result (run (Some ev) ns rs ingressInformer es)))
  ∧ (∀ ns rs es,
       run (Some ev) ns rs secretInformer (Deleted obj :: es) =
         (trace (OnDelete (secret_handlers (Some ev)) obj)
            ++ trace (run (Some ev) ns rs secretInformer es),
          result (run (Some ev) ns rs secretInformer es))).
Proof.
  split; [apply ingress_DeleteFunc_recover|].
  split; [apply (secret_DeleteFunc_recover (Some ev))|].
  split; intros ns rs es.
  - destruct (run_deliver (Some ev) ns rs ingressInformer (Deleted obj :: es))
      as (l & Hl & ->).
    destruct (run_deliver (Some ev) ns rs ingressInformer es) as (l' & Hl' & ->).
    assert (l' = l) as -> by congruence.
    apply (deliver_cons_one _ (ingress_handlers (Some ev)) (Deleted obj)).
    + destruct (createListers_returns (Some ev) ns rs) as (l0 & H0 & _ & H & _).
      by assert (l0 = l) as <- by congruence.
    + apply ingress_DeleteFunc_returns.
  - destruct (run_deliver (Some ev) ns rs secretInformer (Deleted obj :: es))
      as (l & Hl & ->).
    destruct (run_deliver (Some ev) ns rs secretInformer es) as (l' & Hl' & ->).
    assert (l' = l) as -> by congruence.
    apply (deliver_cons_one _ (secret_handlers (Some ev)) (Deleted obj)).
    + destruct (createListers_returns (Some ev) ns rs) as (l0 & H0 & _ & _ & _ & _ & H & _).
      by assert (l0 = l) as <- by congruence.
    + apply secret_DeleteFunc_returns.
Qed.

(** An unrecoverable payload between two deletions, on the secret informer. *)
Example deleted_secret_wrong_kind :
  run (Some haproxy_only) "" 0 secretInformer
    [Deleted (DeletedFinalStateUnknown "default/web" (IngressPtr ing_web));
     Deleted Nil;
     Deleted (DeletedFinalStateUnknown "default/tls" (SecretPtr sec_tls))]
  = ([LogError "Tombstone contained object that is not a Secret: %#v"
        (DeletedFinalStateUnknown "default/web" (IngressPtr ing_web));
      LogError "couldn't get object from tombstone %#v" Nil;
      DeleteSecret "default/tls"], Returned tt).
Proof. reflexivity. Qed.

(** ** Secret *)

(** C2, as stated, fails: an Added secret makes the handler notify the sink. *)
Lemma C2_secret_added_is_signaled :
  signals (OnAdd (secret_handlers (Some haproxy_only)) (SecretPtr sec_tls)) = [Notify]
  ∧ signals (OnAdd (secret_handlers (Some haproxy_only)) (SecretPtr sec_tls)) ≠ [].
Proof. split; [reflexivity | discriminate]. Qed.

(** C2, amended: for every Added event on a secret, whatever the payload, the
    handler calls [Notify] exactly once and nothing else; so does the secret
    informer of the [listers] that [createListers] built, for each Added
    event it delivers. *)
Theorem C2_secret_added_notifies_once (ev : ListerEvents) (obj : iface) :
  OnAdd (secret_handlers (Some ev)) obj = ([Notify], Returned tt)
  ∧ signals (OnAdd (secret_handlers (Some ev)) obj) = [Notify]
  ∧ ∀ ns rs es,
      run (Some ev) ns rs secretInformer (Added obj :: es) =
        (Notify :: trace (run (Some ev) ns rs secretInformer es),
         result (run (Some ev) ns rs secretInformer es)).
Proof.
  split; [reflexivity|]. split; [reflexivity|].
  intros ns rs es.
  destruct (run_deliver (Some ev) ns rs secretInformer (Added obj :: es)) as (l & Hl & ->).
  destruct (run_deliver (Some ev) ns rs secretInformer es) as (l' & Hl' & ->).
  assert (l' = l) as -> by congruence.
  destruct (createListers_returns (Some ev) ns rs) as (l0 & H0 & _ & _ & _ & _ & H & _).
  assert (l0 = l) as -> by congruence.
  by rewrite (deliver_cons_one _ (secret_handlers (Some ev)) (Added obj) es H).
Qed.

(** ** Construction *)

(** C5, as stated, fails: with no sink at all, [createListers] returns a
    [listers] (without a sink) and does not fail. *)
Lemma C5_absent_sink_is_accepted :
  ∃ l, createListers None NamespaceAll 0 = ([], Returned l) ∧ events l = None.
Proof. eexists. split; reflexivity. Qed.

(** C5, amended: [createListers] never checks the sink.  For every sink,
    absent or not, every namespace and every resync period it returns a
    [listers] that holds the sink it was given.  An absent sink shows only
    later: the first handler that calls it panics, as the endpoint handler
    does at an Added event. *)
Theorem C5_createListers_accepts_any_sink
    (sink : option ListerEvents) (watchNamespace : string) (resync : Z) :
  (∃ l, createListers sink watchNamespace resync = ([], Returned l) ∧ events l = sink)
  ∧ ∀ obj es, run None watchNamespace resync endpointInformer (Added obj :: es) = ([], Panicked).
Proof.
  split.
  - destruct (createListers_returns sink watchNamespace resync) as (l & H & He & _). eauto.
  - intros obj es.
    destruct (run_deliver None watchNamespace resync endpointInformer (Added obj :: es))
      as (l & Hl & ->).
    destruct (createListers_returns None watchNamespace resync) as (l0 & H0 & _ & _ & H & _).
    assert (l0 = l) as -> by congruence.
    simpl. by rewrite H.
Qed.

(** ** Endpoints *)

(** C6: an Updated event on two endpoints objects emits exactly one [Notify]
    when their subsets differ and nothing when the subsets are the same,
    whatever the metadata of the two; Added and Deleted emit exactly one
    [Notify] each, whatever the payload. *)
Theorem C6_endpoints_signals (ev : ListerEvents) :
  (∀ old cur : Endpoints,
     OnUpdate (endpoint_handlers (Some ev)) (EndpointsPtr old) (EndpointsPtr cur) =
       if bool_decide (Subsets old = Subsets cur) then ([], Returned tt)
       else ([Notify], Returned tt))
  ∧ (∀ (m m' : ObjectMeta) (subsets : list EndpointSubset),
       OnUpdate (endpoint_handlers (Some ev))
         (EndpointsPtr {| ep_ObjectMeta := m; Subsets := subsets |})
         (EndpointsPtr {| ep_ObjectMeta := m'; Subsets := subsets |}) = ([], Returned tt))
  ∧ (∀ obj, OnAdd (endpoint_handlers (Some ev)) obj = ([Notify], Returned tt))
  ∧ (∀ obj, OnDelete (endpoint_handlers (Some ev)) obj = ([Notify], Returned tt)).
Proof.
  assert (∀ old cur : Endpoints,
     OnUpdate (endpoint_handlers (Some ev)) (EndpointsPtr old) (EndpointsPtr cur) =
       if bool_decide (Subsets old = Subsets cur) then ([], Returned tt)
       else ([Notify], Returned tt)) as updated.
  { intros old cur. cbn. unfold DeepEqual_Subsets. by case_bool_decide. }
  split; [exact updated|].
  split; [|by split].
  intros m m' subsets. rewrite updated. simpl. by rewrite bool_decide_eq_true_2.
Qed.

(** ** ConfigMap *)

(** C8: an Added config map is passed to [AddConfigMap], once, whatever it
    holds; an Updated one is passed to [UpdateConfigMap], once, unless old
    and new are deeply equal, and then nothing is emitted; a Deleted event
    emits nothing, no delete handler being registered. *)
Theorem C8_configmap_signals (ev : ListerEvents) :
  (∀ cm, OnAdd (configMap_handlers (Some ev)) (ConfigMapPtr cm)
         = ([AddConfigMap cm], Returned tt))
  ∧ (∀ old cur,
       OnUpdate (configMap_handlers (Some ev)) (ConfigMapPtr old) (ConfigMapPtr cur) =
         if DeepEqual (ConfigMapPtr old) (ConfigMapPtr cur) then ([], Returned tt)
         else ([UpdateConfigMap cur], Returned tt))
  ∧ (∀ obj, OnDelete (configMap_handlers (Some ev)) obj = ([], Returned tt))
  ∧ DeleteFunc (configMap_handlers (Some ev)) = None.
Proof.
  split; [done|]. split; [|done].
  intros old cur. unfold OnUpdate, configMap_handlers, UpdateFunc, configMap_UpdateFunc.
  by destruct (DeepEqual _ _).
Qed.

(** ** Pod *)

Lemma pod_UpdateFunc_pointers (ev : ListerEvents) (old cur : Pod) :
  pod_UpdateFunc (Some ev) (PodPtr old) (PodPtr cur) =
    if ptr_eqb (DeletionTimestamp (pod_ObjectMeta old)) (DeletionTimestamp (pod_ObjectMeta cur))
    then ([], Returned tt)
    else ([Notify], Returned tt).
Proof. unfold pod_UpdateFunc. cbn. by destruct (ptr_eqb _ _). Qed.

(** What the pod handlers do.  An Updated event on two pods emits one
    [Notify] when their [DeletionTimestamp] pointers differ and nothing when
    they are the same pointer.  So it emits nothing when neither pod has a
    deletion timestamp, whatever their labels; it emits when one of them has a
    deletion timestamp and the other has none; and it emits when the deletion
    time changed, provided a pointer shared by both holds one time.  A
    Deleted event emits one [Notify] and an Added event nothing, whatever the
    payload. *)
Lemma pod_signals (ev : ListerEvents) :
  (∀ old cur : Pod,
     OnUpdate (pod_handlers (Some ev)) (PodPtr old) (PodPtr cur) =
       if ptr_eqb (DeletionTimestamp (pod_ObjectMeta old))
                  (DeletionTimestamp (pod_ObjectMeta cur))
       then ([], Returned tt)
       else ([Notify], Returned tt))
  ∧ (∀ old cur : Pod,
       DeletionTimestamp (pod_ObjectMeta old) = None →
       DeletionTimestamp (pod_ObjectMeta cur) = None →
       OnUpdate (pod_handlers (Some ev)) (PodPtr old) (PodPtr cur) = ([], Returned tt))
  ∧ (∀ old cur : Pod,
       terminating old ≠ terminating cur →
       OnUpdate (pod_handlers (Some ev)) (PodPtr old) (PodPtr cur) = ([Notify], Returned tt))
  ∧ (∀ old cur : Pod,
       (∀ p q, DeletionTimestamp (pod_ObjectMeta old) = Some p →
               DeletionTimestamp (pod_ObjectMeta cur) = Some q →
               addr p = addr q → target p = target q) →
       deletion_time old ≠ deletion_time cur →
       OnUpdate (pod_handlers (Some ev)) (PodPtr old) (PodPtr cur) = ([Notify], Returned tt))
  ∧ (∀ obj, OnDelete (pod_handlers (Some ev)) obj = ([Notify], Returned tt))
  ∧ (∀ obj, OnAdd (pod_handlers (Some ev)) obj = ([], Returned tt)).
Proof.
  split; [apply pod_UpdateFunc_pointers|].
  split; [|split; [|split; [|by split]]]; intros old cur;
    change (OnUpdate (pod_handlers (Some ev)) (PodPtr old) (PodPtr cur))
      with (pod_UpdateFunc (Some ev) (PodPtr old) (PodPtr cur));
    rewrite pod_UpdateFunc_pointers; unfold deletion_time.
  - by intros -> ->.
  - unfold terminating.
    by destruct (DeletionTimestamp (pod_ObjectMeta old)) as [p|],
                (DeletionTimestamp (pod_ObjectMeta cur)) as [q|].
  - destruct (DeletionTimestamp (pod_ObjectMeta old)) as [p|],
             (DeletionTimestamp (pod_ObjectMeta cur)) as [q|]; try done.
    intros shared changed. simpl. case_bool_decide; [|done].
    destruct changed. simpl. f_equal. by apply shared.
Qed.

(** A pod that starts terminating is signaled, whatever else changed or did
    not. *)
Example pod_starts_terminating :
  let old :=
    {| pod_ObjectMeta := meta "default" "web-0"; pod_Spec := "haproxy"; pod_Status := "Running" |} in
  let cur := pod_terminating 1 ∅ in
  terminating old ≠ terminating cur
  ∧ OnUpdate (pod_handlers (Some haproxy_only)) (PodPtr old) (PodPtr cur)
    = ([Notify], Returned tt).
Proof.
  split; [discriminate|].
  apply (proj1 (proj2 (proj2 (pod_signals haproxy_only)))). discriminate.
Qed.

(** C7, where the handler misses it: the deletion timestamps are compared as
    pointers, not as times.  Two snapshots of a terminating pod hold the same
    deletion time, each behind a pointer of its own, and differ in a label
    only; the time did not change, and still the handler notifies. *)
Theorem C7_same_deletion_time_is_signaled :
  let old := pod_terminating 1 {[ "app" := "web" ]} in
  let cur := pod_terminating 2 {[ "app" := "web"; "canary" := "true" ]} in
  deletion_time old = deletion_time cur
  ∧ Labels (pod_ObjectMeta old) ≠ Labels (pod_ObjectMeta cur)
  ∧ OnUpdate (pod_handlers (Some haproxy_only)) (PodPtr old) (PodPtr cur)
    = ([Notify], Returned tt).
Proof.
  split; [reflexivity|]. split; [|reflexivity].
  intros same. apply (f_equal (λ m : gmap string string, m !! "canary")) in same.
  vm_compute in same. discriminate.
Qed.

(** ** Handlers that never look at their payload *)

(** C10: the endpoint Added and Deleted handlers and the pod Deleted handler
    emit exactly one [Notify] and return for every payload, be it a tombstone,
    an object of another kind or nothing at all: they log no error and never
    panic.  The same holds when the events reach them through the informers
    that [createListers] built. *)
Theorem C10_payload_never_inspected (ev : ListerEvents) (obj : iface) :
  OnAdd (endpoint_handlers (Some ev)) obj = ([Notify], Returned tt)
  ∧ OnDelete (endpoint_handlers (Some ev)) obj = ([Notify], Returned tt)
  ∧ OnDelete (pod_handlers (Some ev)) obj = ([Notify], Returned tt)
  ∧ ∀ ns rs,
      run (Some ev) ns rs endpointInformer [Added obj] = ([Notify], Returned tt)
      ∧ run (Some ev) ns rs endpointInformer [Deleted obj] = ([Notify], Returned tt)
      ∧ run (Some ev) ns rs podInformer [Deleted obj] = ([Notify], Returned tt).
Proof.
  split; [reflexivity|]. split; [reflexivity|]. split; [reflexivity|].
  intros ns rs. unfold run, createListers. cbv zeta. rewrite !ret_bind.
  by split; [|split].
Qed.

(** ** The start-up wait *)

Lemma Await_Synced_inv cs polls :
  Await cs polls = Some Synced →
  ∃ before s after,
    polls = before ++ s :: after
    ∧ all_synced cs s = true ∧ stopped s = false
    ∧ Forall (λ p, stopped p = false ∧ all_synced cs p = false) before.
Proof.
  induction polls as [|p polls IH]; simpl; [discriminate|].
  destruct (stopped p) eqn:Hstop; [discriminate|].
  fold (all_synced cs p). destruct (all_synced cs p) eqn:Hall.
  - intros _. by exists [], p, polls.
  - intros H. destruct (IH H) as (before & s & after & -> & Hs & Hns & Hbefore).
    exists (p :: before), s, after. repeat split; try done. by constructor.
Qed.

Lemma Await_Cancelled cs before s after :
  Forall (λ p, stopped p = false ∧ all_synced cs p = false) before →
  stopped s = true →
  Await cs (before ++ s :: after) = Some Cancelled.
Proof.
  intros Hbefore Hs. induction Hbefore as [|p before [Hp Hall] _ IH]; simpl.
  - by rewrite Hs.
  - rewrite Hp. fold (all_synced cs p). by rewrite Hall.
Qed.

Lemma all_synced_cacheSyncs ev ns rs l s :
  createListers ev ns rs = ([], Returned l) →
  all_synced (cacheSyncs l) s = true ↔ ∀ k, hasSynced s k = true.
Proof.
  intros Hl. pose proof (createListers_kinds _ _ _ _ Hl) as Hk.
  injection Hk as H1 H2 H3 H4 H5 H6 H7.
  unfold all_synced, cacheSyncs, HasSynced. simpl.
  rewrite H1, H2, H3, H4, H5, H6, H7. rewrite !andb_true_iff. split.
  - intros (?&?&?&?&?&?&?&_) []; done.
  - intros H. repeat split; apply H.
Qed.

Lemma RunAsync_trace l polls :
  RunAsync l polls =
    (GoRun (inf_kind (ingressInformer l)) :: GoRun (inf_kind (endpointInformer l))
       :: GoRun (inf_kind (serviceInformer l)) :: GoRun (inf_kind (secretInformer l))
       :: GoRun (inf_kind (configMapInformer l)) :: GoRun (inf_kind (podInformer l))
       :: GoRun (inf_kind (nodeInformer l)) :: LogInfo "loading object cache..."
       :: match Await (cacheSyncs l) polls with
          | Some Synced => [LogInfo "cache successfully synced"]
          | Some Cancelled =>
              [HandleError "initial cache sync has timed out or shutdown has requested"]
          | None => []
          end,
     match Await (cacheSyncs l) polls with
     | Some _ => Returned tt
     | None => Waiting
     end).
Proof.
  unfold RunAsync, WaitForCacheSync, go_Run.
  by destruct (Await (cacheSyncs l) polls) as [[]|].
Qed.

(** C9: the wait of [RunAsync] ends in [Synced] only at a poll where the
    informers of all seven kinds report [hasSynced], no stop signal having
    been seen up to then.  When the stop signal fires at a poll before which
    the seven were never all synced, it ends in [Cancelled], whatever the
    progress at that poll; [RunAsync] then reports the error through
    [runtime.HandleError] and returns: it neither panics nor exits. *)
Theorem C9_sync_barrier
    (ev : option ListerEvents) (ns : string) (rs : Z) (l : listers) (polls : list sample) :
  createListers ev ns rs = ([], Returned l) →
  (Await (cacheSyncs l) polls = Some Synced →
     (∃ before s after,
        polls = before ++ s :: after
        ∧ (∀ k, hasSynced s k = true)
        ∧ Forall (λ p, stopped p = false) (before ++ [s]))
     ∧ RunAsync l polls =
         ([GoRun Ingresses; GoRun EndpointsKind; GoRun Services; GoRun Secrets;
           GoRun ConfigMaps; GoRun Pods; GoRun Nodes;
           LogInfo "loading object cache..."; LogInfo "cache successfully synced"],
          Returned tt))
  ∧ (∀ before s after,
       polls = before ++ s :: after →
       Forall (λ p, stopped p = false ∧ ∃ k, hasSynced p k = false) before →
       stopped s = true →
       Await (cacheSyncs l) polls = Some Cancelled
       ∧ RunAsync l polls =
           ([GoRun Ingresses; GoRun EndpointsKind; GoRun Services; GoRun Secrets;
             GoRun ConfigMaps; GoRun Pods; GoRun Nodes;
             LogInfo "loading object cache...";
             HandleError "initial cache sync has timed out or shutdown has requested"],
            Returned tt)).
Proof.
  intros Hl.
  pose proof (createListers_kinds _ _ _ _ Hl) as Hk.
  injection Hk as H1 H2 H3 H4 H5 H6 H7.
  split.
  - intros HS. split.
    + destruct (Await_Synced_inv _ _ HS) as (before & s & after & -> & Hall & Hs & Hb).
      exists before, s, after. split; [done|]. split.
      * by apply (all_synced_cacheSyncs ev ns rs l s Hl).
      * apply Forall_app. split; [|by repeat constructor].
        eapply Forall_impl; [exact Hb|]. by intros p [? _].
    + rewrite RunAsync_trace, HS, H1, H2, H3, H4, H5, H6, H7. reflexivity.
  - intros before s after -> Hb Hs.
    assert (Await (cacheSyncs l) (before ++ s :: after) = Some Cancelled) as HC.
    { apply Await_Cancelled; [|done].
      eapply Forall_impl; [exact Hb|]. intros p [Hp [k Hk]]. split; [done|].
      destruct (all_synced (cacheSyncs l) p) eqn:Hall; [|done].
      apply (all_synced_cacheSyncs ev ns rs l p Hl) with (k:=k) in Hall. congruence. }
    split; [done|].
    rewrite RunAsync_trace, HC, H1, H2, H3, H4, H5, H6, H7. reflexivity.
Qed.

(** C9 at work: six of the seven informers have synced (the node informer has
    not) when the stop signal fires. *)
Lemma C9_sync_barrier_witness :
  ∃ l, createListers (Some haproxy_only) "" 0 = ([], Returned l)
       ∧ Await (cacheSyncs l) [six_of_seven false; six_of_seven true] = Some Cancelled
       ∧ result (RunAsync l [six_of_seven false; six_of_seven true]) = Returned tt.
Proof.
  eexists. split; [reflexivity|].
  destruct (C9_sync_barrier (Some haproxy_only) "" 0 _
              [six_of_seven false; six_of_seven true] eq_refl) as [_ cancelled].
  destruct (cancelled [six_of_seven false] (six_of_seven true) [] eq_refl) as [-> ->].
  - repeat constructor. by exists Nodes.
  - reflexivity.
  - split; reflexivity.
Defined.

(** * Further properties of the handlers and of the wiring *)

(** ** Traces of composed computations *)

Lemma trace_bind {A B} (m : M A) (f : A → M B) :
  trace (m ≫= f) =
    trace m ++ match result m with Returned a => trace (f a) | _ => [] end.
Proof.
  destruct m as [t [a| |]]; simpl; rewrite ?app_nil_r; try reflexivity.
  unfold mbind, M_bind. by destruct (f a).
Qed.

Lemma result_bind {A B} (m : M A) (f : A → M B) :
  result (m ≫= f) =
    match result m with
    | Returned a => result (f a)
    | Panicked => Panicked
    | Waiting => Waiting
    end.
Proof.
  destruct m as [t [a| |]]; simpl; try reflexivity.
  unfold mbind, M_bind. by destruct (f a).
Qed.

Lemma deliver_no_handlers i es : inf_handlers i = [] → deliver i es = ([], Returned tt).
Proof.
  intros Hi. induction es as [|e es IH]; [reflexivity|].
  simpl. rewrite Hi, IH. reflexivity.
Qed.

Lemma deliver_same_handlers i j es :
  inf_handlers i = inf_handlers j → deliver i es = deliver j es.
Proof.
  intros Hij. induction es as [|e es IH]; [reflexivity|].
  simpl. by rewrite Hij, IH.
Qed.

(** A property of traces that holds of the empty trace, is kept by appending
    and holds of what each single event leaves, holds of a whole delivery. *)
Lemma deliver_trace_ind (P : list action → Prop) i :
  P [] →
  (∀ t u, P t → P u → P (t ++ u)) →
  (∀ e, P (trace (distribute (inf_handlers i) e))) →
  ∀ es, P (trace (deliver i es)).
Proof.
  intros Pnil Papp Pone es. induction es as [|e es IH]; [exact Pnil|].
  simpl. rewrite trace_bind. apply Papp; [apply Pone|].
  by destruct (result (distribute (inf_handlers i) e)).
Qed.

Lemma count_app p t u : count p (t ++ u) = count p t + count p u.
Proof. unfold count. by rewrite filter_app, length_app. Qed.

Lemma handlers_of_informer ev ns rs l k :
  createListers ev ns rs = ([], Returned l) →
  inf_handlers (informer_of k l) =
    match k with
    | Ingresses => [ingress_handlers ev]
    | EndpointsKind => [endpoint_handlers ev]
    | Secrets => [secret_handlers ev]
    | ConfigMaps => [configMap_handlers ev]
    | Pods => [pod_handlers ev]
    | Services | Nodes => []
    end.
Proof.
  intros Hl.
  destruct (createListers_returns ev ns rs) as (l0 & H0 & _ & ? & ? & ? & ? & ? & ? & ?).
  assert (l0 = l) as -> by congruence.
  by destruct k.
Qed.

Lemma run_informer_of ev ns rs k es :
  ∃ l, createListers ev ns rs = ([], Returned l)
       ∧ run ev ns rs (informer_of k) es = deliver (informer_of k l) es.
Proof. apply run_deliver. Qed.

(** ** Services and nodes *)

(** X1: the service and the node informer have no handler.  Whatever the sink
    (even none), the watch mode and the events they deliver, nothing is
    emitted, nothing is logged, and the dispatch returns. *)
Theorem X1_service_and_node_events_are_silent
    (sink : option ListerEvents) (ns : string) (rs : Z) (es : list RawEvent) :
  run sink ns rs serviceInformer es = ([], Returned tt)
  ∧ run sink ns rs nodeInformer es = ([], Returned tt).
Proof.
  split.
  - destruct (run_deliver sink ns rs serviceInformer es) as (l & Hl & ->).
    apply deliver_no_handlers. apply (handlers_of_informer sink ns rs l Services Hl).
  - destruct (run_deliver sink ns rs nodeInformer es) as (l & Hl & ->).
    apply deliver_no_handlers. apply (handlers_of_informer sink ns rs l Nodes Hl).
Qed.

(** ** The two watch modes *)

(** X2: [createListers] reads nodes from the cluster only when it watches all
    namespaces.  Then the seven informers come from one factory, on the given
    client, with the given resync period and no namespace.  When it watches
    one namespace, six informers come from one factory restricted to that
    namespace, and the node informer from a factory of its own, on an empty
    fake clientset, with no resync. *)
Theorem X2_node_informer_follows_watch_mode
    (sink : option ListerEvents) (ns : string) (rs : Z) (l : listers) :
  createListers sink ns rs = ([], Returned l) →
  (ns = NamespaceAll →
     ∀ k, inf_factory (informer_of k l) =
            {| factory_client := Client; defaultResync := rs;
               factory_options := [WithTweakListOptions_nil] |})
  ∧ (ns ≠ NamespaceAll →
       (∀ k, k ≠ Nodes →
          inf_factory (informer_of k l) =
            {| factory_client := Client; defaultResync := rs;
               factory_options := [WithNamespace ns] |})
       ∧ inf_factory (nodeInformer l) =
           {| factory_client := FakeSimpleClientset; defaultResync := 0;
              factory_options := [] |}).
Proof.
  unfold createListers. intros [= <-]. split.
  - intros ->. by intros [].
  - intros Hns. rewrite bool_decide_eq_false_2 by done. split; [|reflexivity].
    by intros [].
Qed.

Lemma X2_node_informer_follows_watch_mode_witness :
  ∃ l, createListers None "ingress" 30 = ([], Returned l)
       ∧ factory_client (inf_factory (nodeInformer l)) = FakeSimpleClientset
       ∧ factory_options (inf_factory (secretInformer l)) = [WithNamespace "ingress"].
Proof.
  eexists. split; [reflexivity|].
  destruct (X2_node_informer_follows_watch_mode None "ingress" 30 _ eq_refl) as [_ one].
  destruct one as [six node]; [discriminate|].
  split.
  - exact (f_equal factory_client node).
  - assert (Secrets ≠ Nodes) as secrets by discriminate.
    exact (f_equal factory_options (six Secrets secrets)).
Defined.

(** X3: what an informer does with its events depends on neither the watched
    namespace nor the resync period: for each of the seven kinds, the same
    events give the same calls, the same logs and the same outcome in both
    watch modes. *)
Theorem X3_dispatch_is_independent_of_watch_mode
    (sink : option ListerEvents) (ns ns' : string) (rs rs' : Z)
    (k : ResourceKind) (es : list RawEvent) :
  run sink ns rs (informer_of k) es = run sink ns' rs' (informer_of k) es.
Proof.
  destruct (run_informer_of sink ns rs k es) as (l & Hl & ->).
  destruct (run_informer_of sink ns' rs' k es) as (l' & Hl' & ->).
  apply deliver_same_handlers.
  rewrite (handlers_of_informer sink ns rs l k Hl).
  by rewrite (handlers_of_informer sink ns' rs' l' k Hl').
Qed.

(** ** Resync *)

Lemma DeepEqual_ptr_refl {A} `{EqDecision A} (p : option (ptr A)) : DeepEqual_ptr p p = true.
Proof. destruct p as [a|]; [|reflexivity]. simpl. by rewrite bool_decide_eq_true_2. Qed.

Lemma DeepEqual_ObjectMeta_refl (m : ObjectMeta) : DeepEqual_ObjectMeta m m = true.
Proof.
  unfold DeepEqual_ObjectMeta. rewrite DeepEqual_ptr_refl.
  by rewrite !bool_decide_eq_true_2.
Qed.

Lemma DeepEqual_refl (x : iface) : DeepEqual x x = true.
Proof.
  induction x as [a|a|a|a|a|a|a|k o IH|]; simpl;
    rewrite ?DeepEqual_ObjectMeta_refl; unfold DeepEqual_Subsets;
    rewrite ?bool_decide_eq_true_2; done.
Qed.

Lemma ptr_eqb_refl {A} (p : option (ptr A)) : ptr_eqb p p = true.
Proof. destruct p as [a|]; [|reflexivity]. simpl. by rewrite bool_decide_eq_true_2. Qed.

(** X4: a resync, where the informer delivers one and the same object as the
    old and the new one of an update, makes no handler call the sink, the
    recorder or the logger.  The ingress, secret and config map handlers
    return before they look at the kind of the payload, so this holds for
    every payload; the endpoint and pod handlers, for an object of their
    kind.  No sink is needed: the same holds when there is none. *)
Theorem X4_resync_is_silent (sink : option ListerEvents) :
  (∀ x, OnUpdate (ingress_handlers sink) x x = ([], Returned tt))
  ∧ (∀ x, OnUpdate (secret_handlers sink) x x = ([], Returned tt))
  ∧ (∀ x, OnUpdate (configMap_handlers sink) x x = ([], Returned tt))
  ∧ (∀ ep, OnUpdate (endpoint_handlers sink) (EndpointsPtr ep) (EndpointsPtr ep)
           = ([], Returned tt))
  ∧ (∀ pod, OnUpdate (pod_handlers sink) (PodPtr pod) (PodPtr pod) = ([], Returned tt)).
Proof.
  repeat split.
  - intros x. unfold OnUpdate, ingress_handlers, UpdateFunc, ingress_UpdateFunc.
    by rewrite DeepEqual_refl.
  - intros x. unfold OnUpdate, secret_handlers, UpdateFunc, secret_UpdateFunc.
    by rewrite DeepEqual_refl.
  - intros x. unfold OnUpdate, configMap_handlers, UpdateFunc, configMap_UpdateFunc.
    by rewrite DeepEqual_refl.
  - intros ep. unfold OnUpdate, endpoint_handlers, UpdateFunc, endpoint_UpdateFunc.
    cbn. unfold DeepEqual_Subsets. by rewrite bool_decide_eq_true_2.
  - intros pod. unfold OnUpdate, pod_handlers, UpdateFunc, pod_UpdateFunc.
    cbn. by rewrite ptr_eqb_refl.
Qed.

(** ** Ingress events in sequence *)

Ltac count_actions := split; [reflexivity | vm_compute; lia].

Lemma ingress_event_pairs (ev : ListerEvents) (e : RawEvent) :
  let t := trace (handle (ingress_handlers (Some ev)) e) in
  count is_audit t = count is_notify t ∧ (count is_notify t ≤ 1)%nat.
Proof.
  destruct e as [obj|old cur|obj]; simpl.
  - unfold OnAdd, ingress_handlers, AddFunc, ingress_AddFunc.
    destruct (as_Ingress obj) as [ing|]; [|count_actions].
    cbn. destruct (IsValidClass ev ing); count_actions.
  - unfold OnUpdate, ingress_handlers, UpdateFunc, ingress_UpdateFunc.
    destruct (DeepEqual old cur); [count_actions|].
    destruct (as_Ingress old) as [o|]; [|count_actions].
    destruct (as_Ingress cur) as [c|]; [|count_actions].
    cbn. destruct (IsValidClass ev o), (IsValidClass ev c); count_actions.
  - change (OnDelete (ingress_handlers (Some ev)) obj) with (ingress_DeleteFunc (Some ev) obj).
    rewrite ingress_DeleteFunc_recover.
    destruct (recover as_Ingress obj) as [ing|].
    + unfold ingress_deleted. destruct (IsValidClass ev ing); count_actions.
    + destruct obj; count_actions.
Qed.

(** X5: on the ingress informer, audit events and notifications come in
    pairs.  Whatever events it delivers, with whatever payloads, and even if
    the dispatch ends in a panic, the recorder has been called exactly as
    often as [Notify], and at most once for each event. *)
Theorem X5_ingress_audits_pair_with_notifications
    (ev : ListerEvents) (ns : string) (rs : Z) (es : list RawEvent) :
  count is_audit (trace (run (Some ev) ns rs ingressInformer es))
    = count is_notify (trace (run (Some ev) ns rs ingressInformer es))
  ∧ (count is_notify (trace (run (Some ev) ns rs ingressInformer es)) ≤ length es)%nat.
Proof.
  destruct (run_deliver (Some ev) ns rs ingressInformer es) as (l & Hl & ->).
  pose proof (handlers_of_informer (Some ev) ns rs l Ingresses Hl) as Hh. simpl in Hh.
  induction es as [|e es [IHeq IHle]]; [by split|].
  simpl deliver. rewrite trace_bind, !count_app, Hh, distribute_one.
  destruct (ingress_event_pairs ev e) as [Heq Hle]. simpl in Heq, Hle.
  destruct (result (handle (ingress_handlers (Some ev)) e)).
  - rewrite Heq, IHeq. split; [reflexivity|]. simpl length. lia.
  - rewrite Heq. split; [reflexivity|]. simpl length. cbn. lia.
  - rewrite Heq. split; [reflexivity|]. simpl length. cbn. lia.
Qed.

Lemma foreign_class_event_silent (ev : ListerEvents) (e : RawEvent) :
  foreign_class_event ev e = true →
  handle (ingress_handlers (Some ev)) e = ([], Returned tt).
Proof.
  destruct e as [obj|old cur|obj]; simpl.
  - unfold invalid_ingress, OnAdd, ingress_handlers, AddFunc, ingress_AddFunc.
    destruct (as_Ingress obj) as [ing|]; [|discriminate].
    cbn. by destruct (IsValidClass ev ing).
  - unfold invalid_ingress, OnUpdate, ingress_handlers, UpdateFunc, ingress_UpdateFunc.
    destruct (as_Ingress old) as [o|]; [|discriminate].
    destruct (as_Ingress cur) as [c|]; [|by rewrite andb_false_r].
    destruct (DeepEqual old cur); [reflexivity|].
    cbn. by destruct (IsValidClass ev o), (IsValidClass ev c).
  - change (OnDelete (ingress_handlers (Some ev)) obj) with (ingress_DeleteFunc (Some ev) obj).
    rewrite ingress_DeleteFunc_recover.
    destruct (recover as_Ingress obj) as [ing|]; [|discriminate].
    unfold ingress_deleted. by destruct (IsValidClass ev ing).
Qed.

(** X6: ingresses of a class the sink does not accept are invisible.  A
    sequence of events that concern only such ingresses (added, updated from
    one such ingress to another, deleted directly or through a tombstone)
    leaves no trace at all: no notification, no audit event, no log. *)
Theorem X6_foreign_class_ingresses_are_invisible
    (ev : ListerEvents) (ns : string) (rs : Z) (es : list RawEvent) :
  Forall (λ e, foreign_class_event ev e = true) es →
  run (Some ev) ns rs ingressInformer es = ([], Returned tt).
Proof.
  intros Hes.
  destruct (run_deliver (Some ev) ns rs ingressInformer es) as (l & Hl & ->).
  pose proof (handlers_of_informer (Some ev) ns rs l Ingresses Hl) as Hh. simpl in Hh.
  induction Hes as [|e es He _ IH]; [reflexivity|].
  rewrite (deliver_cons_one _ (ingress_handlers (Some ev)) e es Hh).
  - by rewrite (foreign_class_event_silent ev e He), IH.
  - by rewrite (foreign_class_event_silent ev e He).
Qed.

Lemma X6_foreign_class_ingresses_are_invisible_witness :
  run (Some haproxy_only) "" 0 ingressInformer
    [Added (IngressPtr ing_web');
     Updated (IngressPtr ing_web') (IngressPtr ing_web');
     Deleted (DeletedFinalStateUnknown "default/web" (IngressPtr ing_web'))]
  = ([], Returned tt).
Proof.
  apply X6_foreign_class_ingresses_are_invisible.
  repeat constructor.
Defined.

(** ** Secret keys *)

Lemma secret_UpdateFunc_key (sink : option ListerEvents) (old : iface) (cur : Secret) :
  secret_UpdateFunc sink old (SecretPtr cur) =
    if DeepEqual old (SecretPtr cur) then ([], Returned tt)
    else call sink (UpdateSecret (secret_key cur)).
Proof.
  unfold secret_UpdateFunc. destruct (DeepEqual old (SecretPtr cur)); [reflexivity|].
  cbn. by destruct sink.
Qed.

(** X7: a secret is announced and withdrawn under one key.  When a secret
    changes and is then deleted, the sink gets [UpdateSecret] and
    [DeleteSecret] with the same key, the namespace and name of that secret:
    the old object of the update plays no part in the key, and neither does
    the key a tombstone carries when the deletion comes in one. *)
Theorem X7_secret_update_and_delete_share_the_key
    (ev : ListerEvents) (ns : string) (rs : Z) (old : iface) (sec : Secret) (Key : string) :
  DeepEqual old (SecretPtr sec) = false →
  run (Some ev) ns rs secretInformer
      [Updated old (SecretPtr sec); Deleted (SecretPtr sec)]
    = ([UpdateSecret (secret_key sec); DeleteSecret (secret_key sec)], Returned tt)
  ∧ run (Some ev) ns rs secretInformer
      [Updated old (SecretPtr sec); Deleted (DeletedFinalStateUnknown Key (SecretPtr sec))]
    = ([UpdateSecret (secret_key sec); DeleteSecret (secret_key sec)], Returned tt).
Proof.
  intros Hne.
  assert (∀ e, handle (secret_handlers (Some ev)) e = ([DeleteSecret (secret_key sec)], Returned tt) →
            run (Some ev) ns rs secretInformer [Updated old (SecretPtr sec); e]
            = ([UpdateSecret (secret_key sec); DeleteSecret (secret_key sec)], Returned tt)) as both.
  { intros e He.
    destruct (run_deliver (Some ev) ns rs secretInformer [Updated old (SecretPtr sec); e])
      as (l & Hl & ->).
    pose proof (handlers_of_informer (Some ev) ns rs l Secrets Hl) as Hh. simpl in Hh.
    assert (handle (secret_handlers (Some ev)) (Updated old (SecretPtr sec))
            = ([UpdateSecret (secret_key sec)], Returned tt)) as Hu.
    { change (secret_UpdateFunc (Some ev) old (SecretPtr sec)
              = ([UpdateSecret (secret_key sec)], Returned tt)).
      by rewrite secret_UpdateFunc_key, Hne. }
    rewrite (deliver_cons_one _ _ _ _ Hh) by (by rewrite Hu).
    rewrite (deliver_cons_one _ _ _ _ Hh) by (by rewrite He).
    by rewrite Hu, He. }
  split; by apply both.
Qed.

Lemma X7_secret_update_and_delete_share_the_key_witness :
  run (Some haproxy_only) "" 0 secretInformer
      [Updated Nil (SecretPtr sec_tls);
       Deleted (DeletedFinalStateUnknown "stale/key" (SecretPtr sec_tls))]
    = ([UpdateSecret "default/tls"; DeleteSecret "default/tls"], Returned tt).
Proof.
  apply (X7_secret_update_and_delete_share_the_key
           haproxy_only "" 0 Nil sec_tls "stale/key" eq_refl).
Defined.

Lemma append_cons (x : ascii) (s t : string) : String x s +:+ t = String x (s +:+ t).
Proof. reflexivity. Qed.

Lemma append_empty (t : string) : "" +:+ t = t.
Proof. reflexivity. Qed.

Lemma append_slash_inj (a b c d : string) :
  no_slash a = true → no_slash c = true →
  a +:+ "/" +:+ b = c +:+ "/" +:+ d → a = c ∧ b = d.
Proof.
  revert c. induction a as [|x a IH]; intros [|y c] Ha Hc H; cbn in Ha, Hc;
    rewrite ?append_cons, ?append_empty in H.
  - by injection H as ->.
  - injection H as <- _. apply andb_true_iff in Hc as [Hc _]. discriminate.
  - injection H as -> _. apply andb_true_iff in Ha as [Ha _]. discriminate.
  - injection H as -> H.
    apply andb_true_iff in Ha as [_ Ha]. apply andb_true_iff in Hc as [_ Hc].
    by destruct (IH c Ha Hc H) as [-> ->].
Qed.

(** X8: the key sent to the sink tells secrets apart as long as namespaces
    hold no slash: two secrets with the same key then have the same namespace
    and the same name.  The key itself does not guarantee it: with a slash in
    a namespace, two secrets of different namespaces share a key. *)
Theorem X8_secret_key_identifies_the_secret :
  (∀ a b : Secret,
     no_slash (Namespace (sec_ObjectMeta a)) = true →
     no_slash (Namespace (sec_ObjectMeta b)) = true →
     secret_key a = secret_key b →
     Namespace (sec_ObjectMeta a) = Namespace (sec_ObjectMeta b)
     ∧ Name (sec_ObjectMeta a) = Name (sec_ObjectMeta b))
  ∧ (∃ a b : Secret,
       secret_key a = secret_key b
       ∧ Namespace (sec_ObjectMeta a) ≠ Namespace (sec_ObjectMeta b)).
Proof.
  split.
  - intros a b Ha Hb. unfold secret_key. by apply append_slash_inj.
  - exists {| sec_ObjectMeta := meta "team/a" "tls"; sec_Data := ∅; sec_Type := "Opaque" |},
           {| sec_ObjectMeta := meta "team" "a/tls"; sec_Data := ∅; sec_Type := "Opaque" |}.
    split; [reflexivity | discriminate].
Qed.

Lemma X8_secret_key_identifies_the_secret_witness :
  let renewed :=
    {| sec_ObjectMeta := meta "default" "tls"; sec_Data := {[ "tls.crt" := "PEM" ]};
       sec_Type := "kubernetes.io/tls" |} in
  secret_key sec_tls = secret_key renewed
  ∧ Namespace (sec_ObjectMeta sec_tls) = Namespace (sec_ObjectMeta renewed)
  ∧ Name (sec_ObjectMeta sec_tls) = Name (sec_ObjectMeta renewed).
Proof.
  split; [reflexivity|].
  apply (proj1 X8_secret_key_identifies_the_secret); reflexivity.
Defined.

(** ** Payloads of another kind *)

Lemma deliver_cons_panicked i h e es :
  inf_handlers i = [h] →
  handle h e = ([], Panicked) →
  deliver i (e :: es) = ([], Panicked).
Proof. intros Hh He. simpl. by rewrite Hh, distribute_one, He. Qed.

(** X9: outside the delete handlers nothing recovers from a payload of
    another kind.  The ingress and config map Added handlers, the endpoint and
    pod Updated handlers, and the ingress, secret and config map Updated
    handlers once the two payloads are not deeply equal, assert the kind of
    their payload; a tombstone, an object of another kind or nil makes them
    panic before any collaborator is called, and no later event of the
    informer is handled. *)
Theorem X9_foreign_payload_stops_dispatch
    (ev : ListerEvents) (ns : string) (rs : Z) (old cur : iface) (es : list RawEvent) :
  (as_Ingress cur = None →
     run (Some ev) ns rs ingressInformer (Added cur :: es) = ([], Panicked))
  ∧ (as_ConfigMap cur = None →
       run (Some ev) ns rs configMapInformer (Added cur :: es) = ([], Panicked))
  ∧ (as_Endpoints old = None ∨ as_Endpoints cur = None →
       run (Some ev) ns rs endpointInformer (Updated old cur :: es) = ([], Panicked))
  ∧ (as_Pod old = None ∨ as_Pod cur = None →
       run (Some ev) ns rs podInformer (Updated old cur :: es) = ([], Panicked))
  ∧ (DeepEqual old cur = false →
       (as_Ingress old = None ∨ as_Ingress cur = None →
          run (Some ev) ns rs ingressInformer (Updated old cur :: es) = ([], Panicked))
       ∧ (as_Secret cur = None →
            run (Some ev) ns rs secretInformer (Updated old cur :: es) = ([], Panicked))
       ∧ (as_ConfigMap cur = None →
            run (Some ev) ns rs configMapInformer (Updated old cur :: es) = ([], Panicked))).
Proof.
  assert (∀ k h e,
    (∀ l, createListers (Some ev) ns rs = ([], Returned l) → inf_handlers (informer_of k l) = [h]) →
    handle h e = ([], Panicked) →
    run (Some ev) ns rs (informer_of k) (e :: es) = ([], Panicked)) as stops.
  { intros k h e Hh He.
    destruct (run_informer_of (Some ev) ns rs k (e :: es)) as (l & Hl & ->).
    by apply (deliver_cons_panicked _ h); [apply Hh|]. }
  pose proof (λ k l, handlers_of_informer (Some ev) ns rs l k) as wired.
  split; [|split; [|split; [|split; [|intros Hne; split; [|split]]]]].
  - intros Hc. apply (stops Ingresses (ingress_handlers (Some ev))); [apply wired|].
    simpl. unfold OnAdd, ingress_handlers, AddFunc, ingress_AddFunc. by rewrite Hc.
  - intros Hc. apply (stops ConfigMaps (configMap_handlers (Some ev))); [apply wired|].
    simpl. unfold OnAdd, configMap_handlers, AddFunc, configMap_AddFunc. by rewrite Hc.
  - intros Hc. apply (stops EndpointsKind (endpoint_handlers (Some ev))); [apply wired|].
    simpl. unfold OnUpdate, endpoint_handlers, UpdateFunc, endpoint_UpdateFunc.
    destruct (as_Endpoints old) as [o|]; [|reflexivity].
    destruct Hc as [|Hc]; [discriminate|]. by rewrite Hc.
  - intros Hc. apply (stops Pods (pod_handlers (Some ev))); [apply wired|].
    simpl. unfold OnUpdate, pod_handlers, UpdateFunc, pod_UpdateFunc.
    destruct (as_Pod old) as [o|]; [|reflexivity].
    destruct Hc as [|Hc]; [discriminate|]. by rewrite Hc.
  - intros Hc. apply (stops Ingresses (ingress_handlers (Some ev))); [apply wired|].
    simpl. unfold OnUpdate, ingress_handlers, UpdateFunc, ingress_UpdateFunc. rewrite Hne.
    destruct (as_Ingress old) as [o|]; [|reflexivity].
    destruct Hc as [|Hc]; [discriminate|]. by rewrite Hc.
  - intros Hc. apply (stops Secrets (secret_handlers (Some ev))); [apply wired|].
    simpl. unfold OnUpdate, secret_handlers, UpdateFunc, secret_UpdateFunc. by rewrite Hne, Hc.
  - intros Hc. apply (stops ConfigMaps (configMap_handlers (Some ev))); [apply wired|].
    simpl. unfold OnUpdate, configMap_handlers, UpdateFunc, configMap_UpdateFunc.
    by rewrite Hne, Hc.
Qed.

Lemma X9_foreign_payload_stops_dispatch_witness :
  run (Some haproxy_only) "" 0 endpointInformer
    [Updated (DeletedFinalStateUnknown "default/web" Nil) Nil; Added Nil]
  = ([], Panicked).
Proof.
  apply (proj1 (proj2 (proj2 (X9_foreign_payload_stops_dispatch haproxy_only "" 0
           (DeletedFinalStateUnknown "default/web" Nil) Nil [Added Nil])))).
  by left.
Defined.

(** ** Start-up *)

(** X10: [RunAsync] starts the informers of all seven kinds, each once and
    before it waits, in both watch modes; it then logs once that it is
    loading, and at most one more line once the wait is over.  It never calls
    the sink or the recorder. *)
Theorem X10_RunAsync_starts_all_seven_informers
    (sink : option ListerEvents) (ns : string) (rs : Z) (l : listers) (polls : list sample) :
  createListers sink ns rs = ([], Returned l) →
  ∃ after,
    trace (RunAsync l polls) =
      [GoRun Ingresses; GoRun EndpointsKind; GoRun Services; GoRun Secrets;
       GoRun ConfigMaps; GoRun Pods; GoRun Nodes; LogInfo "loading object cache..."]
      ++ after
    ∧ (length after ≤ 1)%nat
    ∧ (after = [] ↔ result (RunAsync l polls) = Waiting)
    ∧ signals (RunAsync l polls) = []
    ∧ count is_audit (trace (RunAsync l polls)) = 0%nat.
Proof.
  intros Hl. pose proof (createListers_kinds _ _ _ _ Hl) as Hk.
  injection Hk as H1 H2 H3 H4 H5 H6 H7.
  rewrite RunAsync_trace, H1, H2, H3, H4, H5, H6, H7.
  destruct (Await (cacheSyncs l) polls) as [[]|]; eexists; (split; [reflexivity|]);
    simpl; repeat split; try done; lia.
Qed.

Lemma X10_RunAsync_starts_all_seven_informers_witness :
  ∃ l, createListers None "ingress" 30 = ([], Returned l)
       ∧ trace (RunAsync l []) =
           [GoRun Ingresses; GoRun EndpointsKind; GoRun Services; GoRun Secrets;
            GoRun ConfigMaps; GoRun Pods; GoRun Nodes; LogInfo "loading object cache..."].
Proof.
  eexists. split; [reflexivity|].
  destruct (X10_RunAsync_starts_all_seven_informers None "ingress" 30 _ [] eq_refl)
    as (after & Ht & _ & Hw & _).
  rewrite Ht. rewrite (proj2 Hw eq_refl). reflexivity.
Defined.

(** ** What each informer may cause *)

Ltac allowed_trace := cbn; repeat constructor.

Lemma ingress_event_may_cause (ev : ListerEvents) (e : RawEvent) :
  Forall (λ a, may_cause Ingresses a = true) (trace (handle (ingress_handlers (Some ev)) e)).
Proof.
  destruct e as [obj|old cur|obj]; simpl.
  - unfold OnAdd, ingress_handlers, AddFunc, ingress_AddFunc.
    destruct (as_Ingress obj) as [ing|]; [|allowed_trace].
    cbn. destruct (IsValidClass ev ing); allowed_trace.
  - unfold OnUpdate, ingress_handlers, UpdateFunc, ingress_UpdateFunc.
    destruct (DeepEqual old cur); [allowed_trace|].
    destruct (as_Ingress old) as [o|]; [|allowed_trace].
    destruct (as_Ingress cur) as [c|]; [|allowed_trace].
    cbn. destruct (IsValidClass ev o), (IsValidClass ev c); allowed_trace.
  - change (OnDelete (ingress_handlers (Some ev)) obj) with (ingress_DeleteFunc (Some ev) obj).
    rewrite ingress_DeleteFunc_recover.
    destruct (recover as_Ingress obj) as [ing|].
    + unfold ingress_deleted. destruct (IsValidClass ev ing); allowed_trace.
    + destruct obj; allowed_trace.
Qed.

Lemma secret_event_may_cause (ev : ListerEvents) (e : RawEvent) :
  Forall (λ a, may_cause Secrets a = true) (trace (handle (secret_handlers (Some ev)) e)).
Proof.
  destruct e as [obj|old cur|obj]; simpl.
  - allowed_trace.
  - unfold OnUpdate, secret_handlers, UpdateFunc, secret_UpdateFunc.
    destruct (DeepEqual old cur); [allowed_trace|].
    destruct (as_Secret cur) as [sec|]; allowed_trace.
  - change (OnDelete (secret_handlers (Some ev)) obj) with (secret_DeleteFunc (Some ev) obj).
    rewrite secret_DeleteFunc_recover.
    destruct (recover as_Secret obj) as [sec|]; [allowed_trace|].
    destruct obj; allowed_trace.
Qed.

Lemma event_may_cause (ev : ListerEvents) (k : ResourceKind) (e : RawEvent) :
  Forall (λ a, may_cause k a = true)
    (trace (distribute
       match k with
       | Ingresses => [ingress_handlers (Some ev)]
       | EndpointsKind => [endpoint_handlers (Some ev)]
       | Secrets => [secret_handlers (Some ev)]
       | ConfigMaps => [configMap_handlers (Some ev)]
       | Pods => [pod_handlers (Some ev)]
       | Services | Nodes => []
       end e)).
Proof.
  destruct k; rewrite ?distribute_one; try (by constructor).
  - apply ingress_event_may_cause.
  - destruct e as [obj|old cur|obj]; simpl; try allowed_trace.
    unfold OnUpdate, endpoint_handlers, UpdateFunc, endpoint_UpdateFunc.
    destruct (as_Endpoints old) as [o|]; [|allowed_trace].
    destruct (as_Endpoints cur) as [c|]; [|allowed_trace].
    cbn. destruct (DeepEqual_Subsets _ _); allowed_trace.
  - apply secret_event_may_cause.
  - destruct e as [obj|old cur|obj]; simpl; try allowed_trace.
    + unfold OnAdd, configMap_handlers, AddFunc, configMap_AddFunc.
      destruct (as_ConfigMap obj) as [cm|]; allowed_trace.
    + unfold OnUpdate, configMap_handlers, UpdateFunc, configMap_UpdateFunc.
      destruct (DeepEqual old cur); [allowed_trace|].
      destruct (as_ConfigMap cur) as [cm|]; allowed_trace.
  - destruct e as [obj|old cur|obj]; simpl; try allowed_trace.
    unfold OnUpdate, pod_handlers, UpdateFunc, pod_UpdateFunc.
    destruct (as_Pod old) as [o|]; [|allowed_trace].
    destruct (as_Pod cur) as [c|]; [|allowed_trace].
    cbn. destruct (ptr_eqb _ _); allowed_trace.
Qed.

(** X11: each informer causes calls of its own sort only, whatever events and
    payloads it delivers.  Audit events come from the ingress informer alone.
    The endpoint and pod informers only ever call [Notify].  The config map
    informer only ever calls [AddConfigMap] and [UpdateConfigMap], so a
    config map never causes a [Notify].  Keyed secret calls come from the
    secret informer alone, and errors are logged by the ingress and secret
    informers only. *)
Theorem X11_informers_cause_their_own_calls_only
    (ev : ListerEvents) (ns : string) (rs : Z) (k : ResourceKind) (es : list RawEvent) :
  Forall (λ a, may_cause k a = true) (trace (run (Some ev) ns rs (informer_of k) es)).
Proof.
  destruct (run_informer_of (Some ev) ns rs k es) as (l & Hl & ->).
  apply deliver_trace_ind.
  - constructor.
  - intros t u Ht Hu. by apply Forall_app.
  - intros e. rewrite (handlers_of_informer (Some ev) ns rs l k Hl).
    apply event_may_cause.
Qed.
